(** * Sidebar: the tag / category panel of the vault

    A shallow embedding of [src/components/Sidebar.tsx]: the derived read
    models ([tagCounts], [sortedTags], [categoryCounts], [allCategories]),
    the component's local state and its event handlers.

    Conventions of the embedding.
    - A JavaScript string is the list of its UTF-16 code units, which is
      what [Array.prototype.sort] compares and [String.prototype.trim]
      inspects.
    - An accumulator is the plain object [{}] it is at run time, whatever
      type it is asserted to have: a finite map of own properties under
      [Object.prototype].  A read of a name without an own property falls
      through to the prototype, and a write to [__proto__] goes to its
      setter.
    - A handler reads the props and the state of the render it was created
      in and queues state updates; callbacks of the parent and calls on
      the DOM event are recorded, in order, as effects. *)

From stdpp Require Import gmap strings list sorting.

(** ** Strings *)

Module JsString.

(** UTF-16 code units. *)
Definition t : Type := list N.

(** Code points of a UTF-8 byte sequence, astral ones as surrogate pairs.
    It only serves to write the string literals of the source. *)
Fixpoint of_utf8 (bs : list N) : t :=
  match bs with
  | [] => []
  | b0 :: r0 =>
    if (b0 <? 128)%N then b0 :: of_utf8 r0 else
    match r0 with
    | [] => []
    | b1 :: r1 =>
      if (b0 <? 224)%N then ((b0 mod 32) * 64 + b1 mod 64)%N :: of_utf8 r1 else
      match r1 with
      | [] => []
      | b2 :: r2 =>
        if (b0 <? 240)%N
        then ((b0 mod 16) * 4096 + (b1 mod 64) * 64 + b2 mod 64)%N :: of_utf8 r2
        else
        match r2 with
        | [] => []
        | b3 :: r3 =>
          let cp := ((b0 mod 8) * 262144 + (b1 mod 64) * 4096
                     + (b2 mod 64) * 64 + b3 mod 64)%N in
          (55296 + (cp - 65536) / 1024)%N
            :: (56320 + (cp - 65536) mod 1024)%N :: of_utf8 r3
        end
      end
    end
  end.

Definition lit (s : string) : t :=
  of_utf8 (Ascii.N_of_ascii <$> String.list_ascii_of_string s).

(** [ToBoolean] on a string: only the empty string is falsy. *)
Definition truthy (s : t) : bool :=
  match s with [] => false | _ :: _ => true end.

(** [s || d] on strings. *)
Definition or (s d : t) : t := if truthy s then s else d.

(** WhiteSpace and LineTerminator of ECMAScript, the code points that
    [trim] strips. *)
Definition is_white_space (c : N) : bool :=
  (c =? 9)%N || (c =? 10)%N || (c =? 11)%N || (c =? 12)%N || (c =? 13)%N
  || (c =? 32)%N || (c =? 160)%N || (c =? 5760)%N
  || ((8192 <=? c)%N && (c <=? 8202)%N)
  || (c =? 8232)%N || (c =? 8233)%N || (c =? 8239)%N || (c =? 8287)%N
  || (c =? 12288)%N || (c =? 65279)%N.

Fixpoint trimStart (s : t) : t :=
  match s with
  | [] => []
  | c :: s' => if is_white_space c then trimStart s' else s
  end.

Definition trimEnd (s : t) : t := rev (trimStart (rev s)).

(** [String.prototype.trim] *)
Definition trim (s : t) : t := trimEnd (trimStart s).

(** [x < y] on strings (IsLessThan): a proper prefix is smaller, otherwise
    the first differing code unit decides. *)
Fixpoint ltb (x y : t) : bool :=
  match x, y with
  | _, [] => false
  | [], _ :: _ => true
  | a :: x', b :: y' =>
    if (a <? b)%N then true else if (b <? a)%N then false else ltb x' y'
  end.

Definition lt (x y : t) : Prop := ltb x y = true.

(** The order [sort] puts its result in: [y] is not smaller than [x]. *)
Definition le (x y : t) : Prop := ltb y x = false.

#[global] Instance le_dec : RelDecision le.
Proof. intros x y. unfold le. apply _. Defined.

#[global] Instance lt_dec : RelDecision lt.
Proof. intros x y. unfold lt. apply _. Defined.

End JsString.

Abbreviation jsstring := JsString.t.
Notation "'js:' s" := (JsString.lit s) (at level 1, s at level 0, format "'js:' s").

(** [Array.prototype.sort] without a comparator: elements are compared as
    strings by code units.  The result is the sorted permutation of the
    input; equal strings are indistinguishable, so it does not depend on the
    algorithm, here a merge sort. *)
Definition sort (l : list jsstring) : list jsstring :=
  merge_sort JsString.le l.

(** [Array.prototype.includes] on strings. *)
Definition includes (l : list jsstring) (x : jsstring) : bool :=
  bool_decide (x ∈ l).

(** [new Set(iterable)] followed by [Array.from]: the elements in the order
    of their first insertion. *)
Module JsSet.

Definition add (s : list jsstring) (x : jsstring) : list jsstring :=
  if includes s x then s else s ++ [x].

Definition of_list (l : list jsstring) : list jsstring := foldl add [] l.

End JsSet.

(** ** Values and plain objects *)

(** The numbers and strings the count maps can come to hold.  The text a
    native function converts to is implementation-defined, so a string that
    starts with it is kept as the name of the function and the number of
    characters [1] appended to its text; likewise for the text
    [[object Object]] of an object. *)
Inductive Primitive : Type :=
| NaN
| Number (n : nat)
| FunctionText (name : jsstring) (ones : nat)
| ObjectText (ones : nat).

#[global] Instance Primitive_eq_dec : EqDecision Primitive.
Proof. solve_decision. Defined.

(** What a read of a property of a plain object can give: nothing, a
    primitive, a method of [Object.prototype], or [Object.prototype]
    itself. *)
Inductive JsValue : Type :=
| Undefined
| Prim (p : Primitive)
| NativeFunction (name : jsstring)
| ObjectPrototype.

#[global] Instance JsValue_eq_dec : EqDecision JsValue.
Proof. solve_decision. Defined.

Module Value.

(** [ToBoolean]: [undefined], [NaN] and [0] are falsy; the strings here are
    not empty, and objects are truthy. *)
Definition truthy (v : JsValue) : bool :=
  match v with
  | Undefined | Prim NaN | Prim (Number 0) => false
  | _ => true
  end.

(** [v || d] *)
Definition or (v d : JsValue) : JsValue := if truthy v then v else d.

(** [v + 1]: a number is incremented; a string gets a [1] appended; an
    object is first converted to its text. *)
Definition plus_one (v : JsValue) : Primitive :=
  match v with
  | Undefined | Prim NaN => NaN
  | Prim (Number n) => Number (n + 1)
  | Prim (FunctionText f k) => FunctionText f (k + 1)
  | Prim (ObjectText k) => ObjectText (k + 1)
  | NativeFunction f => FunctionText f 1
  | ObjectPrototype => ObjectText 1
  end.

End Value.

(** The object literal [{}]: its own properties, under [Object.prototype]. *)
Module JsObject.

(** The methods of [Object.prototype]. *)
Definition methods : list jsstring :=
  [ js:"constructor"; js:"__defineGetter__"; js:"__defineSetter__";
    js:"hasOwnProperty"; js:"__lookupGetter__"; js:"__lookupSetter__";
    js:"isPrototypeOf"; js:"propertyIsEnumerable"; js:"toString";
    js:"valueOf"; js:"toLocaleString" ].

(** The accessor of [Object.prototype]. *)
Definition proto : jsstring := js:"__proto__".

(** The name is a property of [Object.prototype]. *)
Definition inherits (k : jsstring) : bool :=
  bool_decide (k = proto) || bool_decide (k ∈ methods).

(** [o[k]]: the own property, else what [Object.prototype] has under the
    name, the getter of [__proto__] returning the prototype. *)
Definition get (o : gmap jsstring Primitive) (k : jsstring) : JsValue :=
  match o !! k with
  | Some p => Prim p
  | None =>
    if bool_decide (k = proto) then ObjectPrototype
    else if bool_decide (k ∈ methods) then NativeFunction k
    else Undefined
  end.

(** [o[k] = p] for a primitive [p]: an own property is created or
    overwritten, except under [__proto__], whose setter ignores a value
    that is not an object. *)
Definition set (o : gmap jsstring Primitive) (k : jsstring) (p : Primitive)
    : gmap jsstring Primitive :=
  if bool_decide (k = proto) then o else <[k := p]> o.

(** [Object.keys]: the own keys of the object.  Every use below sorts them,
    directly or after a passage through a set, so the order they are listed
    in does not show ([sort_order_irrelevant], [universe_order_irrelevant]). *)
Definition keys (o : gmap jsstring Primitive) : list jsstring :=
  (map_to_list o).*1.

End JsObject.

Abbreviation keys := JsObject.keys.

(** ** Items *)

(** Modelled from the spec: the [VaultItem] type of [../types] is imported
    by the component but declared elsewhere.  The component reads two of its
    fields, [tags] (iterated with [forEach]; the spec's examples give arrays
    of strings) and [category] (a string, empty when the item has none). *)
Record VaultItem : Type := {
  tags : list jsstring;
  category : jsstring;
}.

Definition uncategorized : jsstring := js:"未分类".

(** ** Derived read models *)

(** [acc[k] = (acc[k] || 0) + 1] *)
Definition bump (acc : gmap jsstring Primitive) (k : jsstring)
    : gmap jsstring Primitive :=
  JsObject.set acc k
    (Value.plus_one (Value.or (JsObject.get acc k) (Prim (Number 0)))).

Definition tagCounts (items : list VaultItem) : gmap jsstring Primitive :=
  foldl (fun acc item => foldl bump acc (tags item)) ∅ items.

Definition sortedTags (items : list VaultItem) : list jsstring :=
  sort (keys (tagCounts items)).

Definition categoryCounts (items : list VaultItem) : gmap jsstring Primitive :=
  foldl (fun acc item =>
           let cat := JsString.or (category item) uncategorized in
           bump acc cat) ∅ items.

Definition allCategories (items : list VaultItem)
    (customCategories : list jsstring) : list jsstring :=
  let existing := keys (categoryCounts items) in
  sort (JsSet.of_list (existing ++ customCategories ++ [uncategorized])).

(** The number a value stands for in a sum of counts; a value that is not
    a number stands for none. *)
Definition number_of (p : Primitive) : nat :=
  match p with Number n => n | _ => 0 end.

(** Sum of the values of a count map that are numbers. *)
Definition total (o : gmap jsstring Primitive) : nat :=
  map_fold (fun _ p acc => number_of p + acc) 0 o.

(** ** The component *)

Inductive Mode : Type := Category | Tag.

#[global] Instance Mode_eq_dec : EqDecision Mode.
Proof. solve_decision. Defined.

(** What a handler does to the outside: calls on the DOM event, the
    [confirm] dialog, and the callbacks of [Props]. *)
Inductive Effect : Type :=
| PreventDefault
| StopPropagation
| Confirm (message : jsstring)
| OnSelectTag (tag : option jsstring)
| OnSelectCategory (cat : option jsstring)
| OnDropOnTag (itemId tag : jsstring)
| OnDropOnCategory (itemId cat : jsstring)
| OnRenameTag (oldTag newTag : jsstring)
| OnDeleteGroup (type : Mode) (name : jsstring).

#[global] Instance Effect_eq_dec : EqDecision Effect.
Proof. solve_decision. Defined.

(** The data of [Props]; its callbacks are the [On...] effects. *)
Record Props : Type := {
  items : list VaultItem;
  selectedTag : option jsstring;
  selectedCategory : option jsstring;
}.

(** The six [useState] cells. *)
Record State : Type := {
  mode : Mode;
  isDragOver : option jsstring;
  editingTag : option jsstring;
  editValue : jsstring;
  newCategoryName : jsstring;
  customCategories : list jsstring;
}.

Definition initialState : State :=
  {| mode := Category; isDragOver := None; editingTag := None;
     editValue := []; newCategoryName := []; customCategories := [] |}.

(** A handler threads the queued state and appends its effects. *)
Definition Handler (A : Type) : Type := State -> A * State * list Effect.

#[global] Instance Handler_ret : MRet Handler :=
  fun A x s => (x, s, []).

#[global] Instance Handler_bind : MBind Handler :=
  fun A B f m s =>
    let '(x, s1, e1) := m s in
    let '(y, s2, e2) := f x s1 in
    (y, s2, e1 ++ e2).

Definition call (e : Effect) : Handler unit := fun s => (tt, s, [e]).

Definition setMode (m : Mode) : Handler unit := fun s =>
  (tt, {| mode := m; isDragOver := isDragOver s; editingTag := editingTag s;
          editValue := editValue s; newCategoryName := newCategoryName s;
          customCategories := customCategories s |}, []).

Definition setIsDragOver (target : option jsstring) : Handler unit := fun s =>
  (tt, {| mode := mode s; isDragOver := target; editingTag := editingTag s;
          editValue := editValue s; newCategoryName := newCategoryName s;
          customCategories := customCategories s |}, []).

Definition setNewCategoryName (v : jsstring) : Handler unit := fun s =>
  (tt, {| mode := mode s; isDragOver := isDragOver s; editingTag := editingTag s;
          editValue := editValue s; newCategoryName := v;
          customCategories := customCategories s |}, []).

Definition setCustomCategories (l : list jsstring) : Handler unit := fun s =>
  (tt, {| mode := mode s; isDragOver := isDragOver s; editingTag := editingTag s;
          editValue := editValue s; newCategoryName := newCategoryName s;
          customCategories := l |}, []).

(** [confirm(message)]: shows the dialog and returns the user's answer. *)
Definition confirm (answer : bool) (message : jsstring) : Handler bool :=
  fun s => (answer, s, [Confirm message]).

(** State and effects of a handler run from a rendered state. *)
Definition exec (h : Handler unit) (st : State) : State * list Effect :=
  let '(_, st', es) := h st in (st', es).

(** A drag event: its [dataTransfer] store, from format to data. *)
Record DragEvent : Type := {
  dataTransfer : gmap jsstring jsstring;
}.

(** [dataTransfer.getData(format)]: the empty string when the format is
    absent. *)
Definition getData (dt : gmap jsstring jsstring) (format : jsstring) : jsstring :=
  default [] (dt !! format).

(** The text of the deletion prompt around the group name. *)
Definition warning (name : jsstring) : jsstring :=
  js:"⚠️ 警告：确定要删除 " ++ [34%N] ++ name ++ [34%N] ++ js:" 下的所有书签吗？此操作无法撤销！".

Section Render.

(** The props and the state of the render whose closures the handlers are. *)
Variable props : Props.
Variable st : State.

Definition handleDragOver (e : DragEvent) (target : option jsstring) : Handler unit :=
  call PreventDefault ;;
  setIsDragOver target.

Definition handleDrop (e : DragEvent) (target : jsstring) : Handler unit :=
  call PreventDefault ;;
  setIsDragOver None ;;
  let itemId := getData (dataTransfer e) js:"text/plain" in
  if JsString.truthy itemId then
    match mode st with
    | Tag => call (OnDropOnTag itemId target)
    | Category => call (OnDropOnCategory itemId target)
    end
  else mret tt.

Definition handleAddCategory : Handler unit :=
  if JsString.truthy (JsString.trim (newCategoryName st)) then
    let name := JsString.trim (newCategoryName st) in
    (if negb (includes (allCategories (items props) (customCategories st)) name)
     then setCustomCategories (customCategories st ++ [name])
     else mret tt) ;;
    setNewCategoryName []
  else mret tt.

Definition handleBulkDelete (user_confirms : bool) (name : jsstring) : Handler unit :=
  call StopPropagation ;;
  confirm user_confirms (warning name) ≫= fun ok : bool =>
  if ok then call (OnDeleteGroup (mode st) name) else mret tt.

(** The inline handlers of the markup. *)
Definition onClickCategoryTab : Handler unit :=
  setMode Category ;; call (OnSelectTag None).

Definition onClickTagTab : Handler unit :=
  setMode Tag ;; call (OnSelectCategory None).

Definition onClickShowAll : Handler unit :=
  call (OnSelectTag None) ;; call (OnSelectCategory None).

(** The rows of the list: tags in tag mode, categories in category mode. *)
Definition rows : list jsstring :=
  match mode st with
  | Tag => sortedTags (items props)
  | Category => allCategories (items props) (customCategories st)
  end.

Definition onClickRow (name : jsstring) : Handler unit :=
  match mode st with
  | Tag => call (OnSelectTag (Some name))
  | Category => call (OnSelectCategory (Some name))
  end.

Definition onDragLeave : Handler unit := setIsDragOver None.

Definition onChange (value : jsstring) : Handler unit :=
  setNewCategoryName value.

Definition onKeyDown (key : jsstring) : Handler unit :=
  if bool_decide (key = js:"Enter") then handleAddCategory else mret tt.

(** A click on an element nested in another one reaches the outer handler
    unless the inner one stopped the propagation. *)
Definition bubble (inner outer : Handler unit) : Handler unit := fun s =>
  let '(_, s1, e1) := inner s in
  if bool_decide (StopPropagation ∈ e1) then (tt, s1, e1)
  else let '(_, s2, e2) := outer s1 in (tt, s2, e1 ++ e2).

(** The user's gestures on the rendered panel. *)
Inductive Gesture : Type :=
| ClickCategoryTab
| ClickTagTab
| ClickShowAll
| ClickRow (name : jsstring)
| ClickRowDelete (name : jsstring) (user_confirms : bool)
| DragOverRow (e : DragEvent) (name : jsstring)
| DragLeaveRow (name : jsstring)
| DropOnRow (e : DragEvent) (name : jsstring)
| ChangeNewCategory (value : jsstring)
| KeyDownNewCategory (key : jsstring)
| ClickAdd.

Definition dispatch (g : Gesture) : Handler unit :=
  match g with
  | ClickCategoryTab => onClickCategoryTab
  | ClickTagTab => onClickTagTab
  | ClickShowAll => onClickShowAll
  | ClickRow name => onClickRow name
  | ClickRowDelete name answer =>
      bubble (handleBulkDelete answer name) (onClickRow name)
  | DragOverRow e name => handleDragOver e (Some name)
  | DragLeaveRow _ => onDragLeave
  | DropOnRow e name => handleDrop e name
  | ChangeNewCategory value => onChange value
  | KeyDownNewCategory key => onKeyDown key
  | ClickAdd => handleAddCategory
  end.

End Render.

(** One gesture: the handlers of the current render run, then the panel
    renders again with the queued state. *)
Definition step (p : Props) (st : State) (g : Gesture) : State * list Effect :=
  exec (dispatch p st g) st.

(** A session: gestures in sequence, each with the props of the render it
    lands on (the parent may pass new props after any callback).  Gestures
    are not restricted to the controls the current mode shows, so every
    session of the rendered panel is among these. *)
Fixpoint run (st : State) (gs : list (Props * Gesture)) : State * list Effect :=
  match gs with
  | [] => (st, [])
  | (p, g) :: gs' =>
    let '(st1, e1) := step p st g in
    let '(st2, e2) := run st1 gs' in
    (st2, e1 ++ e2)
  end.

(** The names each gesture of a session appended to [customCategories],
    each with the items of the render it was submitted in. *)
Fixpoint additions (st : State) (gs : list (Props * Gesture))
    : list (jsstring * list VaultItem) :=
  match gs with
  | [] => []
  | (p, g) :: gs' =>
    let st1 := (step p st g).1 in
    ((fun c => (c, items p))
       <$> drop (length (customCategories st)) (customCategories st1))
    ++ additions st1 gs'
  end.

Definition is_rename (e : Effect) : bool :=
  match e with OnRenameTag _ _ => true | _ => false end.

Definition is_delete (e : Effect) : bool :=
  match e with OnDeleteGroup _ _ => true | _ => false end.

(** ** The rendered panel *)

(** A row of the list, reduced to what it shows and reacts to: its key (the
    group name, also its label), the value given to its badge as a child,
    whether it is drawn as the current selection and whether it is drawn as
    the drop target. *)
Record Row : Type := {
  rowKey : jsstring;
  rowCount : JsValue;
  rowSelected : bool;
  rowDragOver : bool;
}.

(** What the panel shows: the entry for all items with its count, the rows
    of the active mode, and the new-category input with its value, which
    exists in category mode only. *)
Record View : Type := {
  allCount : nat;
  allSelected : bool;
  viewRows : list Row;
  newCategoryInput : option jsstring;
}.

Section View.

Variable props : Props.
Variable st : State.

(** A tag row: the badge reads [tagCounts[tag]]. *)
Definition tagRow (tag : jsstring) : Row :=
  {| rowKey := tag;
     rowCount := JsObject.get (tagCounts (items props)) tag;
     rowSelected := bool_decide (selectedTag props = Some tag);
     rowDragOver := bool_decide (isDragOver st = Some tag) |}.

(** A category row: the badge reads [categoryCounts[cat] || 0]. *)
Definition categoryRow (cat : jsstring) : Row :=
  {| rowKey := cat;
     rowCount := Value.or (JsObject.get (categoryCounts (items props)) cat)
                          (Prim (Number 0));
     rowSelected := bool_decide (selectedCategory props = Some cat);
     rowDragOver := bool_decide (isDragOver st = Some cat) |}.

Definition render : View :=
  {| allCount := length (items props);
     allSelected := bool_decide (selectedTag props = None)
                    && bool_decide (selectedCategory props = None);
     viewRows :=
       match mode st with
       | Tag => tagRow <$> sortedTags (items props)
       | Category =>
           categoryRow <$> allCategories (items props) (customCategories st)
       end;
     newCategoryInput :=
       match mode st with
       | Category => Some (newCategoryName st)
       | Tag => None
       end |}.

End View.

(** What React does with the value of a child: a number or a string is
    shown, [undefined] and a function show nothing, an object that is not
    an element makes the render throw. *)
Definition valid_child (v : JsValue) : bool :=
  match v with ObjectPrototype => false | _ => true end.

(** The element tree can be mounted: no badge makes the render throw. *)
Definition mounts (v : View) : bool :=
  forallb (fun r => valid_child (rowCount r)) (viewRows v).

(** The number a badge shows, none when it is not a number. *)
Definition badge_number (v : JsValue) : nat :=
  match v with Prim p => number_of p | _ => 0 end.

(** ** Vocabulary of the session properties *)

(** The calls that reach the parent, as opposed to calls on the DOM event
    and on the dialog. *)
Definition is_callback (e : Effect) : bool :=
  match e with
  | PreventDefault | StopPropagation | Confirm _ => false
  | _ => true
  end.

(** The grouping a call names a group of, if it names one. *)
Definition targets (e : Effect) : option Mode :=
  match e with
  | OnSelectTag (Some _) | OnDropOnTag _ _ => Some Tag
  | OnSelectCategory (Some _) | OnDropOnCategory _ _ => Some Category
  | OnDeleteGroup type _ => Some type
  | _ => None
  end.

(** The gestures that only concern the panel itself: dragging over and off
    a row, and everything done with the new-category input. *)
Definition is_local (g : Gesture) : bool :=
  match g with
  | DragOverRow _ _ | DragLeaveRow _
  | ChangeNewCategory _ | KeyDownNewCategory _ | ClickAdd => true
  | _ => false
  end.

(** A click on a delete control whose prompt the user confirmed. *)
Definition is_confirmed_delete (g : Gesture) : bool :=
  match g with ClickRowDelete _ true => true | _ => false end.

(** The mode a gesture asks for, if it is a click on a tab. *)
Definition tab_of (g : Gesture) : option Mode :=
  match g with
  | ClickCategoryTab => Some Category
  | ClickTagTab => Some Tag
  | _ => None
  end.

(** The drop target a gesture leaves, if it is a drag gesture. *)
Definition drag_of (g : Gesture) : option (option jsstring) :=
  match g with
  | DragOverRow _ name => Some (Some name)
  | DragLeaveRow _ | DropOnRow _ _ => Some None
  | _ => None
  end.

(** The number of times a tag occurs in the tags of the items. *)
Definition occurrences (t : jsstring) (its : list VaultItem) : nat :=
  sum_list_with (fun item => length (filter (t =.) (tags item))) its.

(** The number of items filed under a category. *)
Definition filed (c : jsstring) (its : list VaultItem) : nat :=
  length (filter (fun item => JsString.or (category item) uncategorized = c) its).

(** What a count map holds under a key that was counted [n] times: nothing
    when it never was, and nothing under [__proto__]; the text of the
    method with [n] times [1] under the name of a method of
    [Object.prototype]; the number [n] under any other key. *)
Definition stored (k : jsstring) (n : nat) : option Primitive :=
  match n with
  | 0 => None
  | S _ =>
    if bool_decide (k = JsObject.proto) then None
    else if bool_decide (k ∈ JsObject.methods) then Some (FunctionText k n)
    else Some (Number n)
  end.

(** Two entries of one key put together: numbers add, and so do the [1]s
    after the text of a method. *)
Definition merge (p q : Primitive) : Primitive :=
  match p, q with
  | Number m, Number n => Number (m + n)
  | FunctionText f a, FunctionText _ b => FunctionText f (a + b)
  | ObjectText a, ObjectText b => ObjectText (a + b)
  | _, _ => p
  end.

(** The category an item is filed under. *)
Definition filing (item : VaultItem) : jsstring :=
  JsString.or (category item) uncategorized.

(** ** Predicates of the statements *)

(** The string does not start with white space. *)
Definition no_lead (s : jsstring) : Prop :=
  match s with [] => True | c :: _ => JsString.is_white_space c = false end.

(** The shape of a custom category: not blank, trimmed, and not the
    label of the items without a category. *)
Definition well_formed (c : jsstring) : Prop :=
  JsString.trim c <> [] /\ JsString.trim c = c /\ c <> uncategorized.

Definition custom_invariant (cs : list jsstring) : Prop :=
  Forall well_formed cs /\ NoDup cs.

(** * Properties *)

(** Unfolds a gesture down to the state and the effects it produces. *)
Ltac run_handler :=
  cbv [step exec dispatch bubble
       handleDragOver handleDrop handleAddCategory handleBulkDelete
       onClickCategoryTab onClickTagTab onClickShowAll onClickRow
       onDragLeave onChange onKeyDown
       mbind mret Handler_bind Handler_ret call confirm
       setMode setIsDragOver setNewCategoryName setCustomCategories];
  simpl.

Example uncategorized_units : uncategorized = [26410; 20998; 31867]%N.
Proof. reflexivity. Qed.

Example literal_units :
  js:"text/plain" = [116; 101; 120; 116; 47; 112; 108; 97; 105; 110]%N
  /\ js:"Enter" = [69; 110; 116; 101; 114]%N
  /\ warning js:"x"
     = [9888; 65039; 32; 35686; 21578; 65306; 30830; 23450; 35201; 21024;
        38500; 32; 34; 120; 34; 32; 19979; 30340; 25152; 26377; 20070;
        31614; 21527; 65311; 27492; 25805; 20316; 26080; 27861; 25764;
        38144; 65281]%N.
Proof. split_and!; reflexivity. Qed.

Example spec_tags :
  let items := [ {| tags := [js:"a"; js:"b"]; category := [] |};
                 {| tags := [js:"a"]; category := [] |} ] in
  tagCounts items = {[ js:"a" := Number 2; js:"b" := Number 1 ]}
  /\ sortedTags items = [js:"a"; js:"b"].
Proof. split; vm_compute; reflexivity. Qed.

Example spec_categories :
  let items := [ {| tags := []; category := js:"Work" |};
                 {| tags := []; category := [] |};
                 {| tags := []; category := js:"Work" |} ] in
  categoryCounts items = {[ js:"Work" := Number 2; uncategorized := Number 1 ]}
  /\ allCategories items [] = [js:"Work"; uncategorized].
Proof. split; vm_compute; reflexivity. Qed.

(** Names of [Object.prototype] in the accumulators and on the badges. *)
Example prototype_names :
  let item ts c := {| tags := ts; category := c |} in
  let p cs := {| items := cs; selectedTag := None; selectedCategory := None |} in
  let custom c :=
    (run initialState [ (p [], ChangeNewCategory c); (p [], ClickAdd) ]).1 in
  tagCounts [ item [js:"__proto__"; js:"a"] [] ] = {[ js:"a" := Number 1 ]}
  /\ tagCounts [ item [js:"constructor"; js:"a"; js:"constructor"] [] ]
     = {[ js:"a" := Number 1;
          js:"constructor" := FunctionText js:"constructor" 2 ]}
  /\ categoryCounts [ item [] js:"__proto__"; item [] js:"Work" ]
     = {[ js:"Work" := Number 1 ]}
  /\ rowCount (categoryRow (p []) (custom js:"constructor") js:"constructor")
     = NativeFunction js:"constructor"
  /\ rowCount (categoryRow (p []) (custom js:"__proto__") js:"__proto__")
     = ObjectPrototype
  /\ mounts (render (p []) (custom js:"constructor")) = true
  /\ mounts (render (p []) (custom js:"__proto__")) = false.
Proof. vm_compute. by split_and!. Qed.

(** ** Count maps *)

Section Counts.

Implicit Types (acc : gmap jsstring Primitive) (k t c : jsstring).
Implicit Types (its : list VaultItem) (ts : list jsstring) (n : nat).

(** Every entry is what its key stores after some number of counts. *)
Local Abbreviation shaped acc := (forall k, exists n, acc !! k = stored k n).

Lemma bump_lookup_ne acc k k' : k <> k' -> bump acc k' !! k = acc !! k.
Proof.
  intros Hne. unfold bump, JsObject.set. case_bool_decide; [done|].
  by rewrite lookup_insert_ne.
Qed.

(** One more count of a key, on the entry of that key. *)
Lemma bump_lookup_eq acc k n :
  acc !! k = stored k n -> bump acc k !! k = stored k (S n).
Proof.
  intros Hk. unfold bump, JsObject.set, JsObject.get. rewrite Hk.
  unfold stored in *. destruct n as [|n]; repeat case_bool_decide;
    rewrite ?lookup_insert_eq; simpl; try done; do 2 f_equal; lia.
Qed.

Lemma bump_lookup acc k k' n :
  acc !! k = stored k n ->
  bump acc k' !! k = stored k (n + if decide (k = k') then 1 else 0).
Proof.
  intros Hk. destruct (decide (k = k')) as [<-|Hne].
  - rewrite Nat.add_1_r. by apply bump_lookup_eq.
  - rewrite Nat.add_0_r, bump_lookup_ne; done.
Qed.

Lemma foldl_bump_lookup ts acc k n :
  acc !! k = stored k n ->
  foldl bump acc ts !! k = stored k (n + length (filter (k =.) ts)).
Proof.
  revert acc n. induction ts as [|t ts IH]; intros acc n Hk; simpl.
  - by rewrite Nat.add_0_r.
  - rewrite (IH _ _ (bump_lookup _ _ t _ Hk)), filter_cons.
    destruct (decide (k = t)); simpl; f_equal; lia.
Qed.

Lemma tagCounts_foldl_lookup its acc t n :
  acc !! t = stored t n ->
  foldl (fun acc item => foldl bump acc (tags item)) acc its !! t
  = stored t (n + occurrences t its).
Proof.
  revert acc n. induction its as [|it its IH]; intros acc n Ht; simpl.
  - by rewrite Nat.add_0_r.
  - rewrite (IH _ _ (foldl_bump_lookup _ _ _ _ Ht)). f_equal.
    unfold occurrences. simpl. lia.
Qed.

Lemma categoryCounts_foldl_lookup its acc c n :
  acc !! c = stored c n ->
  foldl (fun acc item =>
           let cat := JsString.or (category item) uncategorized in
           bump acc cat) acc its !! c
  = stored c (n + filed c its).
Proof.
  revert acc n. induction its as [|it its IH]; intros acc n Hc; simpl.
  - by rewrite Nat.add_0_r.
  - rewrite (IH _ _ (bump_lookup _ _ _ _ Hc)). f_equal.
    unfold filed. rewrite filter_cons.
    destruct (decide (c = JsString.or (category it) uncategorized)) as [->|Hne].
    + rewrite decide_True by done. simpl. lia.
    + rewrite decide_False by congruence. lia.
Qed.

(** The entry of a tag: what its key stores after as many counts as the
    tag has occurrences. *)
Lemma tagCounts_entry its t : tagCounts its !! t = stored t (occurrences t its).
Proof.
  unfold tagCounts.
  by rewrite (tagCounts_foldl_lookup its ∅ t 0) by apply lookup_empty.
Qed.

(** The entry of a category: what its key stores after as many counts as
    there are items filed under it. *)
Lemma categoryCounts_entry its c :
  categoryCounts its !! c = stored c (filed c its).
Proof.
  unfold categoryCounts.
  by rewrite (categoryCounts_foldl_lookup its ∅ c 0) by apply lookup_empty.
Qed.

Lemma shaped_empty : shaped (∅ : gmap jsstring Primitive).
Proof. intros k. exists 0. apply lookup_empty. Qed.

Lemma bump_shaped acc k : shaped acc -> shaped (bump acc k).
Proof.
  intros Hacc k'. destruct (Hacc k') as [n Hn].
  eexists. by apply bump_lookup.
Qed.

Lemma foldl_bump_shaped ts acc : shaped acc -> shaped (foldl bump acc ts).
Proof.
  revert acc. induction ts as [|t ts IH]; intros acc Hacc; simpl; [done|].
  by apply IH, bump_shaped.
Qed.

Lemma total_insert_fresh acc k p :
  acc !! k = None -> total (<[k := p]> acc) = number_of p + total acc.
Proof.
  intros Hk. unfold total.
  rewrite map_fold_insert_L; [done | intros; lia | done].
Qed.

Lemma total_insert acc k p :
  total (<[k := p]> acc) + default 0 (number_of <$> acc !! k)
  = number_of p + total acc.
Proof.
  destruct (acc !! k) as [q|] eqn:Hk; simpl.
  - rewrite <- insert_delete_eq.
    rewrite total_insert_fresh by apply lookup_delete_eq.
    rewrite <- (insert_delete_id acc k q) at 2 by done.
    rewrite total_insert_fresh by apply lookup_delete_eq. lia.
  - rewrite total_insert_fresh by done. lia.
Qed.

(** A count adds one to the sum of the numbers, unless its key is a name
    of [Object.prototype]. *)
Lemma total_bump acc k n :
  acc !! k = stored k n ->
  total (bump acc k)
  = total acc + (if JsObject.inherits k then 0 else 1).
Proof.
  intros Hk. unfold bump, JsObject.set, JsObject.inherits.
  destruct (decide (k = JsObject.proto)) as [Hp|Hp].
  { rewrite !(bool_decide_eq_true_2 _ Hp). simpl. lia. }
  rewrite !(bool_decide_eq_false_2 _ Hp). simpl.
  pose proof (total_insert acc k
    (Value.plus_one (Value.or (JsObject.get acc k) (Prim (Number 0))))) as Hins.
  revert Hins. unfold JsObject.get. rewrite Hk. unfold stored.
  rewrite !(bool_decide_eq_false_2 _ Hp).
  destruct n as [|n]; destruct (bool_decide (k ∈ JsObject.methods));
    simpl; lia.
Qed.

Lemma total_foldl_bump ts acc :
  shaped acc ->
  total (foldl bump acc ts)
  = total acc + length (filter (fun t => JsObject.inherits t = false) ts).
Proof.
  revert acc. induction ts as [|t ts IH]; intros acc Hacc; simpl; [lia|].
  rewrite IH by by apply bump_shaped.
  destruct (Hacc t) as [n Hn]. rewrite (total_bump _ _ _ Hn), filter_cons.
  destruct (JsObject.inherits t); simpl; lia.
Qed.

Lemma tagCounts_foldl_total its acc :
  shaped acc ->
  total (foldl (fun acc item => foldl bump acc (tags item)) acc its)
  = total acc
    + sum_list_with
        (fun item =>
           length (filter (fun t => JsObject.inherits t = false) (tags item)))
        its.
Proof.
  revert acc. induction its as [|it its IH]; intros acc Hacc; simpl; [lia|].
  rewrite IH by by apply foldl_bump_shaped.
  rewrite total_foldl_bump by done. lia.
Qed.

Lemma categoryCounts_foldl_total its acc :
  shaped acc ->
  total (foldl (fun acc item =>
                  let cat := JsString.or (category item) uncategorized in
                  bump acc cat) acc its)
  = total acc
    + length (filter (fun item => JsObject.inherits (filing item) = false) its).
Proof.
  revert acc. induction its as [|it its IH]; intros acc Hacc; simpl; [lia|].
  rewrite IH by by apply bump_shaped.
  destruct (Hacc (JsString.or (category it) uncategorized)) as [n Hn].
  rewrite (total_bump _ _ _ Hn), filter_cons. unfold filing.
  destruct (JsObject.inherits _); simpl; lia.
Qed.

Lemma stored_is_Some k n :
  is_Some (stored k n) <-> 0 < n /\ k <> JsObject.proto.
Proof.
  unfold stored. destruct n as [|n].
  - split; [by intros [? ?] | lia].
  - repeat case_bool_decide; split; try (by intros [? ?]); try (by intros [_ ?]);
      (split; [lia | done]) || by eexists.
Qed.

Lemma occurrences_app t its1 its2 :
  occurrences t (its1 ++ its2) = occurrences t its1 + occurrences t its2.
Proof. apply sum_list_with_app. Qed.

Lemma filed_app c its1 its2 :
  filed c (its1 ++ its2) = filed c its1 + filed c its2.
Proof. unfold filed. by rewrite filter_app, length_app. Qed.

Lemma occurrences_Permutation t its1 its2 :
  its1 ≡ₚ its2 -> occurrences t its1 = occurrences t its2.
Proof. unfold occurrences. by intros ->. Qed.

Lemma filed_Permutation c its1 its2 :
  its1 ≡ₚ its2 -> filed c its1 = filed c its2.
Proof. unfold filed. by intros ->. Qed.

Lemma occurrences_pos t its :
  0 < occurrences t its <-> exists it, it ∈ its /\ t ∈ tags it.
Proof.
  unfold occurrences. induction its as [|it its IH]; simpl.
  - split; [lia|]. intros (it & Hit & _). by apply elem_of_nil in Hit.
  - setoid_rewrite elem_of_cons. split.
    + intros Hpos.
      destruct (filter (t =.) (tags it)) as [|t' l] eqn:Hf.
      * simpl in Hpos. apply IH in Hpos as (it' & Hin & Ht). eauto.
      * exists it. split; [by left|].
        assert (t' ∈ filter (t =.) (tags it)) as Ht' by (rewrite Hf; left).
        apply list_elem_of_filter in Ht' as [-> Ht']. done.
    + intros (it' & [->|Hin] & Ht).
      * assert (t ∈ filter (t =.) (tags it)) as Hin
          by (by apply list_elem_of_filter).
        destruct (filter (t =.) (tags it)); [by apply elem_of_nil in Hin|].
        simpl. lia.
      * assert (0 < sum_list_with
                      (fun item => length (filter (t =.) (tags item))) its)
          by (apply IH; eauto).
        lia.
Qed.

Lemma filed_pos c its :
  0 < filed c its
  <-> exists it, it ∈ its /\ JsString.or (category it) uncategorized = c.
Proof.
  unfold filed. split.
  - intros Hpos.
    destruct (filter _ its) as [|it l] eqn:Hf; [simpl in Hpos; lia|].
    assert (it ∈ it :: l) as Hit by left. rewrite <- Hf in Hit.
    apply list_elem_of_filter in Hit as [? ?]. eauto.
  - intros (it & Hit & Hc).
    assert (it ∈ filter
              (fun item => JsString.or (category item) uncategorized = c) its)
      as Hin by (by apply list_elem_of_filter).
    destruct (filter _ its); [by apply elem_of_nil in Hin | simpl; lia].
Qed.

(** A key of a count map is a key with an own entry. *)
Lemma elem_of_keys (o : gmap jsstring Primitive) k :
  k ∈ keys o <-> is_Some (o !! k).
Proof.
  unfold JsObject.keys. rewrite list_elem_of_fmap. split.
  - intros [[k' n] [-> Hin]]. apply elem_of_map_to_list in Hin. by exists n.
  - intros [n Hn]. exists (k, n). split; [done|]. by apply elem_of_map_to_list.
Qed.

(** The keys of the category counts: the categories the items are filed
    under, except [__proto__]. *)
Lemma elem_of_categoryCounts its c :
  c ∈ keys (categoryCounts its)
  <-> c <> JsObject.proto
      /\ exists it, it ∈ its /\ JsString.or (category it) uncategorized = c.
Proof.
  rewrite elem_of_keys, categoryCounts_entry, stored_is_Some, filed_pos. tauto.
Qed.

(** The keys of the tag counts: the tags of the items, except
    [__proto__]. *)
Lemma elem_of_tagCounts its t :
  t ∈ keys (tagCounts its)
  <-> t <> JsObject.proto /\ exists it, it ∈ its /\ t ∈ tags it.
Proof.
  rewrite elem_of_keys, tagCounts_entry, stored_is_Some, occurrences_pos. tauto.
Qed.

Lemma category_key_nonempty its c : c ∈ keys (categoryCounts its) -> c <> [].
Proof.
  intros (_ & it & _ & <-)%elem_of_categoryCounts.
  unfold JsString.or. by destruct (category it).
Qed.

End Counts.

(** C1, the defect.  The accumulators are plain objects: a count under
    [__proto__] is lost and a count under the name of a method of
    [Object.prototype] is a string.  With an item of category [__proto__]
    and an item of category [Work], the category counts hold [Work] alone
    and sum to 1 for 2 items; the one tag [constructor] is counted by a
    string, so the tag counts sum to no number of pairs. *)
Theorem counts_lose_prototype_names :
  let its := [ {| tags := [js:"constructor"]; category := js:"__proto__" |};
               {| tags := []; category := js:"Work" |} ] in
  categoryCounts its = {[ js:"Work" := Number 1 ]}
  /\ total (categoryCounts its) = 1
  /\ length its = 2
  /\ tagCounts its = {[ js:"constructor" := FunctionText js:"constructor" 1 ]}
  /\ total (tagCounts its) = 0
  /\ sum_list_with (fun item => length (tags item)) its = 1.
Proof. vm_compute. by split_and!. Qed.

(** C10, the defect.  An item that carries the tag [__proto__] twice adds
    nothing to the tag counts, and one that carries [constructor] twice
    leaves a string there, not the count 2; a tag that is not a name of
    [Object.prototype] carried twice is counted 2. *)
Theorem prototype_tags_not_counted :
  tagCounts [ {| tags := [js:"__proto__"; js:"__proto__"]; category := [] |} ]
    !! js:"__proto__" = None
  /\ tagCounts [ {| tags := [js:"constructor"; js:"constructor"]; category := [] |} ]
       !! js:"constructor" = Some (FunctionText js:"constructor" 2)
  /\ tagCounts [ {| tags := [js:"a"; js:"a"]; category := [] |} ]
       !! js:"a" = Some (Number 2).
Proof. vm_compute. by split_and!. Qed.

(** ** The order of strings and [sort] *)

Section Order.

Import JsString.

Lemma ltb_irrefl x : ltb x x = false.
Proof.
  induction x as [|a x IH]; simpl; [done|].
  rewrite N.ltb_irrefl. done.
Qed.

Lemma ltb_asym x y : ltb x y = true -> ltb y x = false.
Proof.
  revert y. induction x as [|a x IH]; intros [|b y]; simpl; try done.
  destruct (N.ltb_spec a b), (N.ltb_spec b a); try done; try lia.
  apply IH.
Qed.

Lemma ltb_trans x y z : ltb x y = true -> ltb y z = true -> ltb x z = true.
Proof.
  revert y z. induction x as [|a x IH]; intros [|b y] [|c z]; simpl; try done.
  destruct (N.ltb_spec a b), (N.ltb_spec b a), (N.ltb_spec b c),
    (N.ltb_spec c b), (N.ltb_spec a c), (N.ltb_spec c a);
    try done; try lia.
  apply IH.
Qed.

(** Two strings neither of which is smaller are the same string. *)
Lemma ltb_connex x y : ltb x y = false -> ltb y x = false -> x = y.
Proof.
  revert y. induction x as [|a x IH]; intros [|b y]; simpl; try done.
  destruct (N.ltb_spec a b), (N.ltb_spec b a); try done; try lia.
  intros Hxy Hyx. f_equal; [lia | by apply IH].
Qed.

Lemma le_lt_eq x y : le x y <-> lt x y \/ x = y.
Proof.
  unfold le, lt. split.
  - intros Hyx. destruct (ltb x y) eqn:Hxy; [by left | right].
    by apply ltb_connex.
  - intros [Hxy | ->]; [by apply ltb_asym | apply ltb_irrefl].
Qed.

#[local] Instance le_total : Total le.
Proof.
  intros x y. unfold le. destruct (ltb y x) eqn:Hyx; [right | by left].
  by apply ltb_asym.
Qed.

#[local] Instance le_trans : Transitive le.
Proof.
  intros x y z. rewrite !le_lt_eq. unfold lt.
  intros [Hxy | ->] [Hyz | ->]; eauto using ltb_trans.
Qed.

#[local] Instance le_antisym : AntiSymm (=) le.
Proof. intros x y Hxy Hyx. by apply ltb_connex. Qed.

Lemma sort_Sorted l : Sorted le (sort l).
Proof. apply Sorted_merge_sort; apply _. Qed.

Lemma sort_Permutation l : sort l ≡ₚ l.
Proof. apply merge_sort_Permutation. Qed.

Lemma elem_of_sort l x : x ∈ sort l <-> x ∈ l.
Proof. by rewrite sort_Permutation. Qed.

(** The result of [sort] depends on the elements only, not on the order
    they come in. *)
Lemma sort_order_irrelevant l1 l2 : l1 ≡ₚ l2 -> sort l1 = sort l2.
Proof.
  intros Hperm. apply (Sorted_unique le); try apply sort_Sorted.
  by rewrite !sort_Permutation.
Qed.

Lemma elem_of_JsSet_foldl l s x :
  x ∈ foldl JsSet.add s l <-> x ∈ s \/ x ∈ l.
Proof.
  revert s. induction l as [|y l IH]; intros s; simpl.
  - rewrite elem_of_nil. tauto.
  - rewrite IH, elem_of_cons. unfold JsSet.add, includes.
    case_bool_decide as Hy.
    + split; [tauto|]. intros [?|[->|?]]; tauto.
    + rewrite elem_of_app, list_elem_of_singleton. tauto.
Qed.

Lemma elem_of_JsSet l x : x ∈ JsSet.of_list l <-> x ∈ l.
Proof.
  unfold JsSet.of_list. rewrite elem_of_JsSet_foldl, elem_of_nil. tauto.
Qed.

Lemma NoDup_JsSet_foldl l s : NoDup s -> NoDup (foldl JsSet.add s l).
Proof.
  revert s. induction l as [|y l IH]; intros s Hs; simpl; [done|].
  apply IH. unfold JsSet.add, includes. case_bool_decide as Hy; [done|].
  apply NoDup_app. split_and!; [done| |apply NoDup_singleton].
  intros z Hz ->%list_elem_of_singleton. done.
Qed.

Lemma NoDup_JsSet l : NoDup (JsSet.of_list l).
Proof. apply NoDup_JsSet_foldl, NoDup_nil_2. Qed.

(** The universe is the same in whatever order the keys of the category
    counts are listed. *)
Lemma universe_order_irrelevant (existing existing' rest : list jsstring) :
  existing ≡ₚ existing' ->
  sort (JsSet.of_list (existing ++ rest))
  = sort (JsSet.of_list (existing' ++ rest)).
Proof.
  intros Hperm. apply sort_order_irrelevant.
  apply NoDup_Permutation; try apply NoDup_JsSet.
  intros x. rewrite !elem_of_JsSet, !elem_of_app. by rewrite Hperm.
Qed.

(** The category universe: the categories of the items, the custom ones
    and [uncategorized]. *)
Lemma elem_of_allCategories its cs x :
  x ∈ allCategories its cs
  <-> x ∈ keys (categoryCounts its) \/ x ∈ cs \/ x = uncategorized.
Proof.
  unfold allCategories.
  rewrite elem_of_sort, elem_of_JsSet, !elem_of_app, list_elem_of_singleton.
  tauto.
Qed.

Lemma NoDup_allCategories its cs : NoDup (allCategories its cs).
Proof.
  unfold allCategories. rewrite sort_Permutation. apply NoDup_JsSet.
Qed.

End Order.

(** C2. For every item list and every custom-category list, the category
    universe contains [uncategorized], is in ascending order of strings and
    has no duplicates; the tag list is in ascending order. *)
Theorem universe_sorted (its : list VaultItem) (cs : list jsstring) :
  uncategorized ∈ allCategories its cs
  /\ Sorted JsString.le (allCategories its cs)
  /\ NoDup (allCategories its cs)
  /\ Sorted JsString.le (sortedTags its).
Proof.
  split_and!.
  - apply elem_of_allCategories. auto.
  - apply sort_Sorted.
  - apply NoDup_allCategories.
  - apply sort_Sorted.
Qed.

(** ** Handlers *)

Lemma truthy_nonempty (s : jsstring) : JsString.truthy s = true <-> s <> [].
Proof. destruct s; simpl; split; congruence. Qed.

(** C3. A drop on a row whose drag data carries a non-empty plain-text item
    identifier calls [onDropOnTag] with the identifier and the row in tag
    mode and [onDropOnCategory] in category mode, and nothing else of the
    parent; with an empty identifier no callback is called.  The drag-over
    indicator is reset in every case. *)
Theorem drop_follows_mode
    (p : Props) (st : State) (e : DragEvent) (target : jsstring) :
  let itemId := getData (dataTransfer e) js:"text/plain" in
  let r := step p st (DropOnRow e target) in
  isDragOver r.1 = None
  /\ (itemId <> [] -> mode st = Tag ->
        r.2 = [PreventDefault; OnDropOnTag itemId target])
  /\ (itemId <> [] -> mode st = Category ->
        r.2 = [PreventDefault; OnDropOnCategory itemId target])
  /\ (itemId = [] -> r.2 = [PreventDefault]).
Proof.
  intros itemId r. subst r. run_handler. fold itemId.
  destruct itemId as [|c s]; destruct (mode st); simpl;
    split_and!; intros; congruence.
Qed.

Lemma drop_follows_mode_witness :
  let e := {| dataTransfer := {[ js:"text/plain" := js:"item-42" ]} |} in
  let p := {| items := []; selectedTag := None; selectedCategory := None |} in
  (step p initialState (DropOnRow e js:"Work")).2
    = [PreventDefault; OnDropOnCategory js:"item-42" js:"Work"]
  /\ (step p initialState (DropOnRow {| dataTransfer := ∅ |} js:"Work")).2
    = [PreventDefault].
Proof.
  intros e p. split.
  - apply (drop_follows_mode p initialState e js:"Work");
      [vm_compute; discriminate | reflexivity].
  - apply (drop_follows_mode p initialState {| dataTransfer := ∅ |} js:"Work").
    reflexivity.
Defined.

(** C4. From every state, the category tab sets the mode to [Category] and
    calls [onSelectTag(null)]; the tag tab sets the mode to [Tag] and calls
    [onSelectCategory(null)]. *)
Theorem tabs_switch_mode (p : Props) (st : State) :
  mode (step p st ClickCategoryTab).1 = Category
  /\ (step p st ClickCategoryTab).2 = [OnSelectTag None]
  /\ mode (step p st ClickTagTab).1 = Tag
  /\ (step p st ClickTagTab).2 = [OnSelectCategory None].
Proof. by run_handler. Qed.

(** C7. The delete control of a row, once the prompt is confirmed, calls
    [onDeleteGroup] exactly once, with the active mode and the row name;
    when the prompt is declined it is not called, and nothing changes. *)
Theorem bulk_delete_confirmed_once (p : Props) (st : State) (name : jsstring) :
  let yes := step p st (ClickRowDelete name true) in
  let no := step p st (ClickRowDelete name false) in
  yes.2 = [StopPropagation; Confirm (warning name); OnDeleteGroup (mode st) name]
  /\ filter is_delete yes.2 = [OnDeleteGroup (mode st) name]
  /\ no.2 = [StopPropagation; Confirm (warning name)]
  /\ filter is_delete no.2 = []
  /\ no.1 = st.
Proof. run_handler. by destruct st. Qed.

(** No gesture calls [onRenameTag]. *)
Lemma step_no_rename (p : Props) (st : State) (g : Gesture) :
  filter is_rename (step p st g).2 = [].
Proof.
  destruct g; run_handler; try done.
  - by destruct (mode st).
  - by destruct user_confirms.
  - destruct (JsString.truthy _); [by destruct (mode st) | done].
  - case_bool_decide; [|done].
    destruct (JsString.truthy _); [|done]. by destruct (negb _).
  - destruct (JsString.truthy _); [|done]. by destruct (negb _).
Qed.

Lemma run_cons (st : State) (p : Props) (g : Gesture) gs :
  run st ((p, g) :: gs)
  = ((run (step p st g).1 gs).1, (step p st g).2 ++ (run (step p st g).1 gs).2).
Proof. simpl. destruct (step p st g), (run _ gs). done. Qed.

(** C8. Over every sequence of gestures, from every state, the component
    calls [onRenameTag] zero times. *)
Theorem never_renames (st : State) (gs : list (Props * Gesture)) :
  length (filter is_rename (run st gs).2) = 0.
Proof.
  revert st. induction gs as [|[p g] gs IH]; intros st; [done|].
  rewrite run_cons. simpl.
  rewrite filter_app, step_no_rename. apply IH.
Qed.

(** ** [trim] *)

Section Trim.

Import JsString.

Lemma trimStart_no_lead s : no_lead (trimStart s).
Proof.
  induction s as [|c s IH]; simpl; [done|].
  destruct (is_white_space c) eqn:Hc; [done | simpl; done].
Qed.

Lemma trimStart_id s : no_lead s -> trimStart s = s.
Proof. destruct s as [|c s]; simpl; [done|]. by intros ->. Qed.

Lemma trimStart_suffix s : exists ws, s = ws ++ trimStart s.
Proof.
  induction s as [|c s [ws IH]]; simpl; [by exists []|].
  destruct (is_white_space c); [|by exists []].
  exists (c :: ws). simpl. by f_equal.
Qed.

Lemma no_lead_app s1 s2 : no_lead (s1 ++ s2) -> s1 <> [] -> no_lead s1.
Proof. by destruct s1. Qed.

Lemma trim_idempotent s : trim (trim s) = trim s.
Proof.
  unfold trim, trimEnd.
  pose proof (trimStart_no_lead s) as Hu.
  set (u := trimStart s) in *.
  pose proof (trimStart_no_lead (rev u)) as Hw.
  destruct (trimStart_suffix (rev u)) as [ws Hws].
  set (w := trimStart (rev u)) in *.
  assert (no_lead (rev w)) as Hrw.
  { destruct (decide (rev w = [])) as [->|Hne]; [done|].
    apply (no_lead_app _ (rev ws)); [|done].
    rewrite <- rev_app_distr, <- Hws, rev_involutive. done. }
  rewrite (trimStart_id (rev w)) by done.
  rewrite rev_involutive, (trimStart_id w) by done. done.
Qed.

End Trim.

(** ** The custom categories *)

Section Custom.

Implicit Types (p : Props) (st : State) (g : Gesture).
Implicit Types (its : list VaultItem) (gs : list (Props * Gesture)).

(** What one gesture does to the custom categories: nothing, or it appends
    the trimmed input, which is then non-empty and new to the universe. *)
Lemma step_customCategories p st g :
  customCategories (step p st g).1 = customCategories st
  \/ (customCategories (step p st g).1
        = customCategories st ++ [JsString.trim (newCategoryName st)]
      /\ JsString.trim (newCategoryName st) <> []
      /\ JsString.trim (newCategoryName st)
           ∉ allCategories (items p) (customCategories st)).
Proof.
  assert (forall h : Handler unit,
    h = handleAddCategory p st ->
    customCategories (exec h st).1 = customCategories st
    \/ (customCategories (exec h st).1
          = customCategories st ++ [JsString.trim (newCategoryName st)]
        /\ JsString.trim (newCategoryName st) <> []
        /\ JsString.trim (newCategoryName st)
             ∉ allCategories (items p) (customCategories st))) as Hadd.
  { intros h ->. run_handler.
    destruct (JsString.truthy _) eqn:Hne; [|by left].
    apply truthy_nonempty in Hne. unfold includes.
    case_bool_decide; simpl; [by left | by right]. }
  destruct g; try (by left; run_handler; try destruct (mode st);
                     try destruct user_confirms).
  - left. run_handler.
    destruct (JsString.truthy _); [by destruct (mode st) | done].
  - unfold step. simpl. unfold onKeyDown.
    case_bool_decide; [by apply Hadd | by left].
  - by apply Hadd.
Qed.

Lemma step_invariant p st g :
  custom_invariant (customCategories st) ->
  custom_invariant (customCategories (step p st g).1).
Proof.
  intros [Hwf Hnd].
  destruct (step_customCategories p st g) as [->|(-> & Hne & Hnew)]; [done|].
  rewrite elem_of_allCategories in Hnew. split.
  - apply Forall_app. split; [done|]. apply Forall_singleton.
    unfold well_formed. rewrite trim_idempotent. split_and!; [done..|].
    intros Heq. apply Hnew. auto.
  - apply NoDup_app. split_and!; [done| |apply NoDup_singleton].
    intros c Hc ->%list_elem_of_singleton. apply Hnew. auto.
Qed.

Lemma run_invariant st gs :
  custom_invariant (customCategories st) ->
  custom_invariant (customCategories (run st gs).1).
Proof.
  revert st. induction gs as [|[p g] gs IH]; intros st Hst; [done|].
  rewrite run_cons. simpl. by apply IH, step_invariant.
Qed.

Lemma initial_invariant : custom_invariant (customCategories initialState).
Proof. split; [apply Forall_nil_2 | apply NoDup_nil_2]. Qed.

Lemma step_additions p st g :
  customCategories (step p st g).1
  = customCategories st
    ++ drop (length (customCategories st)) (customCategories (step p st g).1).
Proof.
  destruct (step_customCategories p st g) as [->|(-> & _)].
  - by rewrite drop_all, app_nil_r.
  - by rewrite drop_app_length.
Qed.

Lemma run_additions st gs :
  customCategories (run st gs).1
  = customCategories st ++ (additions st gs).*1.
Proof.
  revert st. induction gs as [|[p g] gs IH]; intros st.
  - simpl. by rewrite app_nil_r.
  - rewrite run_cons. simpl. rewrite IH, fmap_app, <- list_fmap_compose.
    rewrite (step_additions p st g) at 1. simpl.
    by rewrite list_fmap_id, app_assoc.
Qed.

(** A name is appended only when it is no key of the category counts of
    its render: no item of that render has it as its category, unless the
    name is [__proto__], which is never a key. *)
Lemma additions_unobserved st gs :
  Forall (fun a => forall it, it ∈ a.2 -> category it = a.1 ->
                   a.1 = JsObject.proto)
         (additions st gs).
Proof.
  revert st. induction gs as [|[p g] gs IH]; intros st; simpl; [done|].
  apply Forall_app. split; [|apply IH].
  destruct (step_customCategories p st g) as [->|(-> & Hne & Hnew)].
  - by rewrite drop_all.
  - rewrite drop_app_length. apply Forall_singleton. simpl.
    intros it Hit Heq.
    destruct (decide (JsString.trim (newCategoryName st) = JsObject.proto))
      as [|Hp]; [done|].
    destruct Hnew. apply elem_of_allCategories.
    left. apply elem_of_categoryCounts. split; [done|].
    exists it. split; [done|].
    unfold JsString.or. rewrite Heq.
    destruct (JsString.trim (newCategoryName st)); done.
Qed.

End Custom.

Lemma add_category_runs (p : Props) (st : State) :
  JsString.trim (newCategoryName st) <> [] ->
  step p st ClickAdd
  = exec ((if negb (includes (allCategories (items p) (customCategories st))
                             (JsString.trim (newCategoryName st)))
           then setCustomCategories
                  (customCategories st ++ [JsString.trim (newCategoryName st)])
           else mret tt) ;;
          setNewCategoryName []) st.
Proof.
  intros Hne%truthy_nonempty. unfold step. simpl. unfold handleAddCategory.
  by rewrite Hne.
Qed.

Lemma enter_submits (p : Props) (st : State) :
  step p st (KeyDownNewCategory js:"Enter") = step p st ClickAdd.
Proof. done. Qed.



(** C6 as stated fails: the input of a blank submission is not cleared, it
    still holds the white space that was typed. *)
Lemma blank_submission_keeps_input :
  let p := {| items := []; selectedTag := None; selectedCategory := None |} in
  let st := (run initialState [(p, ChangeNewCategory js:"  ")]).1 in
  JsString.trim (newCategoryName st) = []
  /\ newCategoryName (step p st ClickAdd).1 = js:"  "
  /\ newCategoryName (step p st ClickAdd).1 <> [].
Proof. vm_compute. split_and!; [reflexivity | reflexivity | discriminate]. Qed.

(** C6, amended. Submitting a name that is blank after trimming does
    nothing at all: the custom categories, and with them the category
    universe, stay as they are, and so does the input, which is not
    cleared; no callback is called. *)
Theorem blank_submission_is_noop (p : Props) (st : State) :
  JsString.trim (newCategoryName st) = [] ->
  step p st ClickAdd = (st, [])
  /\ step p st (KeyDownNewCategory js:"Enter") = (st, [])
  /\ allCategories (items p) (customCategories (step p st ClickAdd).1)
     = allCategories (items p) (customCategories st).
Proof.
  intros Hblank. rewrite enter_submits.
  assert (step p st ClickAdd = (st, [])) as ->; [|done].
  unfold step. simpl. unfold handleAddCategory. by rewrite Hblank.
Qed.

Lemma blank_submission_is_noop_witness :
  let p := {| items := []; selectedTag := None; selectedCategory := None |} in
  let st := (run initialState [(p, ChangeNewCategory js:"  ")]).1 in
  step p st ClickAdd = (st, []).
Proof.
  intros p st. apply (blank_submission_is_noop p st). reflexivity.
Defined.

(** A category that was just added is a row of the list in category mode,
    whatever the items of the next render are. *)
Lemma added_category_is_row (p p' : Props) (st : State) :
  let name := JsString.trim (newCategoryName st) in
  let st' := (step p st ClickAdd).1 in
  name <> [] -> name ∉ allCategories (items p) (customCategories st) ->
  mode st = Category -> name ∈ rows p' st'.
Proof.
  intros name st' Hne Hnew Hmode. subst st'. rewrite add_category_runs by done.
  fold name. unfold rows, includes. rewrite bool_decide_eq_false_2 by done.
  run_handler. rewrite Hmode. apply elem_of_allCategories. right. left.
  apply elem_of_app. right. by apply list_elem_of_singleton.
Qed.

(** The match is exact: a name that differs in case from a category of the
    items is a new category. *)
Example case_sensitive_match :
  let p := {| items := [ {| tags := []; category := js:"Work" |} ];
              selectedTag := None; selectedCategory := None |} in
  let st := (run initialState [(p, ChangeNewCategory js:"work")]).1 in
  customCategories (step p st ClickAdd).1 = [js:"work"].
Proof. reflexivity. Qed.

(** C9, the defect.  The custom categories are meant to be new names, but
    an item of category [__proto__] leaves no key in the category counts:
    the universe of its render is [uncategorized] alone, and submitting
    [__proto__] appends it although an item of that render carries it. *)
Theorem proto_category_added_again :
  let p := {| items := [ {| tags := []; category := js:"__proto__" |} ];
              selectedTag := None; selectedCategory := None |} in
  let gs := [ (p, ChangeNewCategory js:"__proto__"); (p, ClickAdd) ] in
  allCategories (items p) [] = [uncategorized]
  /\ customCategories (run initialState gs).1 = [js:"__proto__"]
  /\ additions initialState gs = [ (js:"__proto__", items p) ]
  /\ Exists (fun it => category it = js:"__proto__") (items p).
Proof. split_and!; [reflexivity.. | by left]. Qed.

(** X19. The custom categories start empty.  After any sequence of
    gestures they are well formed (not blank, equal to their trimmed form,
    different from [uncategorized]) and pairwise distinct, and they are
    exactly the names recorded when they were appended; none of these,
    unless it is [__proto__], was the category of an item of the render it
    was submitted in. *)
Theorem custom_categories_shape (gs : list (Props * Gesture)) :
  let cs := customCategories (run initialState gs).1 in
  customCategories initialState = []
  /\ Forall well_formed cs
  /\ NoDup cs
  /\ cs = (additions initialState gs).*1
  /\ Forall (fun a => forall it, it ∈ a.2 -> category it = a.1 ->
                      a.1 = JsObject.proto)
       (additions initialState gs).
Proof.
  intros cs. split; [done|].
  destruct (run_invariant initialState gs initial_invariant) as [Hwf Hnd].
  split_and!; [done | done | apply (run_additions initialState gs)
              | apply additions_unobserved].
Qed.

Lemma custom_categories_shape_witness :
  let p := {| items := [ {| tags := []; category := js:"Work" |} ];
              selectedTag := None; selectedCategory := None |} in
  let gs := [ (p, ChangeNewCategory js:" Home "); (p, ClickAdd);
              (p, ChangeNewCategory js:"Work"); (p, ClickAdd);
              (p, ChangeNewCategory js:"Home"); (p, KeyDownNewCategory js:"Enter") ] in
  customCategories (run initialState gs).1 = [js:"Home"]
  /\ NoDup (customCategories (run initialState gs).1).
Proof.
  intros p gs. split; [reflexivity|].
  apply (custom_categories_shape gs).
Defined.

(** * Further properties of the read models *)

(** X1. The own entry of a tag in the tag counts is what its key stores
    after as many counts as the tag has occurrences in the items: the
    number of occurrences under an ordinary name, the text of the method
    with one [1] per occurrence under the name of a method of
    [Object.prototype], nothing under [__proto__].  So a tag has an entry
    exactly when it is not [__proto__] and some item carries it, and no
    entry is the number zero. *)
Theorem tag_entry (its : list VaultItem) (t : jsstring) :
  tagCounts its !! t = stored t (occurrences t its)
  /\ (is_Some (tagCounts its !! t)
      <-> t <> JsObject.proto /\ exists it, it ∈ its /\ t ∈ tags it)
  /\ tagCounts its !! t <> Some (Number 0).
Proof.
  split_and!.
  - apply tagCounts_entry.
  - rewrite <- elem_of_keys. apply elem_of_tagCounts.
  - rewrite tagCounts_entry. unfold stored.
    destruct (occurrences t its); repeat case_bool_decide; done.
Qed.

(** X2. The own entry of a category in the category counts is what its key
    stores after as many counts as there are items filed under it (an item
    with an empty category is filed under [uncategorized]).  So a category
    has an entry exactly when it is not [__proto__] and some item is filed
    under it; no entry is the number zero, and the empty string is never a
    key. *)
Theorem category_entry (its : list VaultItem) (c : jsstring) :
  categoryCounts its !! c = stored c (filed c its)
  /\ (is_Some (categoryCounts its !! c)
      <-> c <> JsObject.proto
          /\ exists it, it ∈ its /\ JsString.or (category it) uncategorized = c)
  /\ categoryCounts its !! c <> Some (Number 0)
  /\ categoryCounts its !! [] = None.
Proof.
  split_and!.
  - apply categoryCounts_entry.
  - rewrite <- elem_of_keys. apply elem_of_categoryCounts.
  - rewrite categoryCounts_entry. unfold stored.
    destruct (filed c its); repeat case_bool_decide; done.
  - apply eq_None_not_Some. rewrite <- elem_of_keys.
    intros Hin. by apply category_key_nonempty in Hin.
Qed.

Section Lists.

Import JsString.

#[local] Existing Instance le_trans.
#[local] Existing Instance le_total.

Lemma strictly_ascending l :
  StronglySorted le l -> NoDup l -> StronglySorted lt l.
Proof.
  induction 1 as [|x l Hl IH Hx]; intros Hnd; [constructor|].
  apply NoDup_cons in Hnd as [Hxl Hnd]. constructor; [by apply IH|].
  rewrite Forall_forall in Hx |- *. intros y Hy.
  destruct (proj1 (le_lt_eq x y) (Hx y Hy)) as [?| ->]; done.
Qed.

Lemma sort_strict l : NoDup l -> StronglySorted lt (sort l).
Proof.
  intros Hnd. apply strictly_ascending.
  - apply Sorted_StronglySorted; [apply _ | apply sort_Sorted].
  - by rewrite sort_Permutation.
Qed.

Lemma NoDup_keys (o : gmap jsstring Primitive) : NoDup (keys o).
Proof. apply NoDup_fst_map_to_list. Qed.

Lemma elem_of_sortedTags its t :
  t ∈ sortedTags its
  <-> t <> JsObject.proto /\ exists it, it ∈ its /\ t ∈ tags it.
Proof. unfold sortedTags. rewrite elem_of_sort. apply elem_of_tagCounts. Qed.

Lemma NoDup_sortedTags its : NoDup (sortedTags its).
Proof. unfold sortedTags. rewrite sort_Permutation. apply NoDup_keys. Qed.

Lemma tagCounts_Permutation its1 its2 :
  its1 ≡ₚ its2 -> tagCounts its1 = tagCounts its2.
Proof.
  intros Hperm. apply map_eq. intros t.
  by rewrite !tagCounts_entry, (occurrences_Permutation _ _ _ Hperm).
Qed.

Lemma categoryCounts_Permutation its1 its2 :
  its1 ≡ₚ its2 -> categoryCounts its1 = categoryCounts its2.
Proof.
  intros Hperm. apply map_eq. intros c.
  by rewrite !categoryCounts_entry, (filed_Permutation _ _ _ Hperm).
Qed.

End Lists.

(** X3. The tag list holds exactly the tags carried by some item, except
    [__proto__], each once, in strictly ascending order. *)
Theorem tag_list_exact (its : list VaultItem) :
  (forall t, t ∈ sortedTags its
             <-> t <> JsObject.proto /\ exists it, it ∈ its /\ t ∈ tags it)
  /\ StronglySorted JsString.lt (sortedTags its).
Proof.
  split; [intros t; apply elem_of_sortedTags|].
  apply sort_strict, NoDup_keys.
Qed.

(** X4. The category universe holds exactly [uncategorized], the custom
    categories and the categories of the items that are neither empty nor
    [__proto__], in strictly ascending order. *)
Theorem universe_exact (its : list VaultItem) (cs : list jsstring) :
  (forall x, x ∈ allCategories its cs
             <-> x = uncategorized \/ x ∈ cs
                 \/ (x <> [] /\ x <> JsObject.proto
                     /\ exists it, it ∈ its /\ category it = x))
  /\ StronglySorted JsString.lt (allCategories its cs).
Proof.
  split; [|apply sort_strict, NoDup_JsSet].
  intros x. rewrite elem_of_allCategories, elem_of_categoryCounts. split.
  - intros [(Hp & it & Hit & Hc)|[?|?]]; auto.
    unfold JsString.or in Hc. destruct (category it) as [|a s] eqn:Hcat; simpl in Hc.
    + auto.
    + right. right. split_and!; [by rewrite <- Hc | done |].
      exists it. by rewrite Hcat.
  - intros [?|[?|(Hne & Hp & it & Hit & Hc)]]; auto.
    left. split; [done|]. exists it. split; [done|].
    unfold JsString.or. rewrite Hc. by destruct x.
Qed.

(** X5. The read models do not depend on the order of the items: two item
    lists that are permutations of each other give the same tag counts,
    category counts, tag list and category universe. *)
Theorem read_models_ignore_order (its1 its2 : list VaultItem) :
  its1 ≡ₚ its2 ->
  tagCounts its1 = tagCounts its2
  /\ categoryCounts its1 = categoryCounts its2
  /\ sortedTags its1 = sortedTags its2
  /\ (forall cs, allCategories its1 cs = allCategories its2 cs).
Proof.
  intros Hperm. unfold sortedTags, allCategories.
  rewrite (tagCounts_Permutation _ _ Hperm).
  by rewrite (categoryCounts_Permutation _ _ Hperm).
Qed.

Lemma read_models_ignore_order_witness :
  let a := {| tags := [js:"x"; js:"y"]; category := js:"Work" |} in
  let b := {| tags := [js:"y"]; category := [] |} in
  tagCounts [a; b] = tagCounts [b; a].
Proof.
  intros a b. apply (read_models_ignore_order [a; b] [b; a]).
  apply perm_swap.
Defined.

(** X6. The counts of a concatenation are the counts of the parts merged
    key by key: a key of one part keeps its entry; under a key of both,
    two numbers are added, and two entries that are the text of a method
    with some [1]s have their [1]s put together. *)
Theorem counts_of_app (its1 its2 : list VaultItem) :
  tagCounts (its1 ++ its2)
  = union_with (fun p q => Some (merge p q)) (tagCounts its1) (tagCounts its2)
  /\ categoryCounts (its1 ++ its2)
     = union_with (fun p q => Some (merge p q))
         (categoryCounts its1) (categoryCounts its2).
Proof.
  split; apply map_eq; intros k; rewrite lookup_union_with.
  - rewrite !tagCounts_entry, occurrences_app. unfold stored.
    destruct (occurrences k its1), (occurrences k its2);
      repeat case_bool_decide; simpl; try done; do 2 f_equal; lia.
  - rewrite !categoryCounts_entry, filed_app. unfold stored.
    destruct (filed k its1), (filed k its2);
      repeat case_bool_decide; simpl; try done; do 2 f_equal; lia.
Qed.

(** * Properties of the rendered panel *)

Section Rendered.

Implicit Types (p : Props) (st : State) (o : gmap jsstring Primitive).
Implicit Types (l : list jsstring).

Lemma sum_list_with_fmap {A B} (f : B -> nat) (g : A -> B) (xs : list A) :
  sum_list_with f (g <$> xs) = sum_list_with (fun x => f (g x)) xs.
Proof. induction xs as [|x xs IH]; csimpl; [done | by rewrite IH]. Qed.

Lemma sum_list_with_ext {A} (f g : A -> nat) (xs : list A) :
  (forall x, f x = g x) -> sum_list_with f xs = sum_list_with g xs.
Proof.
  intros Hfg. induction xs as [|x xs IH]; simpl; [done|]. by rewrite Hfg, IH.
Qed.

Lemma sum_counts_insert l o i q :
  NoDup l -> o !! i = None ->
  sum_list_with (fun k => default 0 (number_of <$> <[i := q]> o !! k)) l
  = (if decide (i ∈ l) then number_of q else 0)
    + sum_list_with (fun k => default 0 (number_of <$> o !! k)) l.
Proof.
  intros Hnd Hi. induction Hnd as [|k l Hk Hnd IH].
  - simpl. destruct (decide (i ∈ [])) as [Hin|_]; [|done].
    by apply elem_of_nil in Hin.
  - cbn [sum_list_with]. rewrite IH, lookup_insert.
    destruct (decide (i = k)) as [<-|Hne].
    + destruct (decide (i ∈ l)) as [|_]; [done|].
      destruct (decide (i ∈ i :: l)) as [_|Hnin]; [|by destruct Hnin; left].
      rewrite Hi. simpl. lia.
    + destruct (decide (i ∈ l)) as [Hin|Hin];
        destruct (decide (i ∈ k :: l)) as [Hin'|Hin']; try lia.
      * destruct Hin'. by right.
      * apply elem_of_cons in Hin' as [?|?]; done.
Qed.

(** Summing the numbers over distinct names that cover the keys gives the
    sum of the numbers of the map. *)
Lemma sum_counts_total l o :
  NoDup l -> (forall k, is_Some (o !! k) -> k ∈ l) ->
  sum_list_with (fun k => default 0 (number_of <$> o !! k)) l = total o.
Proof.
  intros Hnd. induction o as [|i q o Hi IH] using map_ind; intros Hcover.
  - unfold total. rewrite map_fold_empty. clear.
    induction l as [|k l IHl]; simpl; [done|].
    by rewrite lookup_empty.
  - rewrite sum_counts_insert, total_insert_fresh by done.
    rewrite decide_True by (apply Hcover; rewrite lookup_insert_eq; by eexists).
    rewrite IH; [done|]. intros k Hk. apply Hcover.
    rewrite lookup_insert_is_Some. destruct (decide (i = k)); auto.
Qed.

(** The number on a badge is the number of the own entry, if there is
    one: what a read finds on the prototype is no number. *)
Lemma badge_number_get o k :
  badge_number (JsObject.get o k) = default 0 (number_of <$> o !! k).
Proof.
  unfold JsObject.get. destruct (o !! k); simpl; [done|].
  by repeat case_bool_decide.
Qed.

Lemma badge_number_or_zero o k :
  badge_number (Value.or (JsObject.get o k) (Prim (Number 0)))
  = default 0 (number_of <$> o !! k).
Proof.
  unfold JsObject.get, Value.or. destruct (o !! k) as [[|[|n]| |]|]; simpl;
    try done; by repeat case_bool_decide.
Qed.

Lemma at_most_one {A B} (f : A -> B) (Q : B -> Prop) `{!forall b, Decision (Q b)}
    (xs : list A) :
  NoDup xs -> (forall x y, Q (f x) -> Q (f y) -> x = y) ->
  length (filter Q (f <$> xs)) <= 1.
Proof.
  intros Hnd Hone. induction Hnd as [|x xs Hx Hnd IH]; csimpl; [lia|].
  rewrite filter_cons. destruct (decide (Q (f x))) as [HQ|HQ]; [|done].
  destruct (filter Q (f <$> xs)) as [|z zs] eqn:Hf; [simpl; lia|].
  assert (z ∈ filter Q (f <$> xs)) as Hz by (rewrite Hf; left).
  apply list_elem_of_filter in Hz as [HQz Hz].
  apply list_elem_of_fmap in Hz as (y & -> & Hy).
  by rewrite (Hone x y HQ HQz) in Hx.
Qed.

Lemma row_keys p st :
  rowKey <$> viewRows (render p st) = rows p st.
Proof.
  unfold render, rows. simpl.
  destruct (mode st); rewrite <- list_fmap_compose; apply list_fmap_id.
Qed.

Lemma NoDup_rows p st : NoDup (rows p st).
Proof.
  unfold rows. destruct (mode st);
    [apply NoDup_allCategories | apply NoDup_sortedTags].
Qed.

End Rendered.

(** X7. The numbers on the badges of the rows add up: in category mode to
    the number of items filed under a name that is not a property of
    [Object.prototype], which is the count shown on the entry for all
    items when no item is filed under such a name; in tag mode to the
    number of tags of the items that are not such names. *)
Theorem badges_sum (p : Props) (st : State) :
  sum_list_with (fun r => badge_number (rowCount r)) (viewRows (render p st))
  = match mode st with
    | Category =>
        length (filter (fun item => JsObject.inherits (filing item) = false)
                  (items p))
    | Tag =>
        sum_list_with
          (fun item =>
             length (filter (fun t => JsObject.inherits t = false) (tags item)))
          (items p)
    end
  /\ (Forall (fun item => JsObject.inherits (filing item) = false) (items p) ->
      length (filter (fun item => JsObject.inherits (filing item) = false)
                (items p))
      = allCount (render p st)).
Proof.
  split.
  - unfold render. simpl. destruct (mode st); rewrite sum_list_with_fmap; simpl.
    + rewrite (sum_list_with_ext _ _ _ (badge_number_or_zero _)).
      rewrite sum_counts_total.
      * unfold categoryCounts.
        rewrite categoryCounts_foldl_total by apply shaped_empty. done.
      * apply NoDup_allCategories.
      * intros k Hk. apply elem_of_allCategories. left. by apply elem_of_keys.
    + rewrite (sum_list_with_ext _ _ _ (badge_number_get _)).
      rewrite sum_counts_total.
      * unfold tagCounts.
        rewrite tagCounts_foldl_total by apply shaped_empty. done.
      * apply NoDup_sortedTags.
      * intros k Hk. unfold sortedTags. by rewrite elem_of_sort, elem_of_keys.
  - intros Hall. simpl. f_equal. clear st.
    induction Hall as [|it its Hit Hall IH]; [done|].
    rewrite filter_cons, decide_True by done. by f_equal.
Qed.

Lemma badges_sum_witness :
  let p := {| items := [ {| tags := []; category := js:"Work" |};
                         {| tags := []; category := [] |} ];
              selectedTag := None; selectedCategory := None |} in
  length (filter (fun item => JsObject.inherits (filing item) = false) (items p))
  = 2.
Proof.
  intros p. apply (badges_sum p initialState).
  repeat constructor.
Defined.

(** X8. The rows of a render have distinct keys, and at most one of them is
    drawn as the selection and at most one as the drop target. *)
Theorem rows_distinct (p : Props) (st : State) :
  NoDup (rowKey <$> viewRows (render p st))
  /\ length (filter (fun r => rowSelected r = true) (viewRows (render p st))) <= 1
  /\ length (filter (fun r => rowDragOver r = true) (viewRows (render p st))) <= 1.
Proof.
  split; [rewrite row_keys; apply NoDup_rows|].
  pose proof (NoDup_rows p st) as Hnd. unfold rows in Hnd.
  unfold render. simpl.
  destruct (mode st); split; apply at_most_one; try done; simpl;
    intros x y Hx%bool_decide_eq_true Hy%bool_decide_eq_true; congruence.
Qed.

(** X9. On a row whose name is not a property of [Object.prototype], the
    badge is a number: on a tag row the number of occurrences of the tag,
    which is at least one; on a category row the number of items filed
    under the category, zero for a category without items. *)
Theorem badges_exact (p : Props) (st : State) (r : Row) :
  r ∈ viewRows (render p st) ->
  JsObject.inherits (rowKey r) = false ->
  match mode st with
  | Tag => rowCount r = Prim (Number (occurrences (rowKey r) (items p)))
           /\ 1 <= occurrences (rowKey r) (items p)
  | Category => rowCount r = Prim (Number (filed (rowKey r) (items p)))
  end.
Proof.
  unfold render. simpl. destruct (mode st);
    intros (k & -> & Hk)%list_elem_of_fmap; simpl;
    unfold JsObject.inherits; intros [Hp Hm]%orb_false_elim.
  - unfold JsObject.get. rewrite categoryCounts_entry. unfold stored.
    rewrite Hp, Hm. by destruct (filed k (items p)).
  - apply elem_of_sortedTags in Hk as [_ Hk%occurrences_pos].
    unfold JsObject.get. rewrite tagCounts_entry. unfold stored.
    rewrite Hp, Hm. split; [|lia].
    destruct (occurrences k (items p)); [lia | done].
Qed.

Lemma badges_exact_witness :
  let p := {| items := [ {| tags := [js:"a"; js:"a"]; category := [] |} ];
              selectedTag := None; selectedCategory := None |} in
  let st := (step p initialState ClickTagTab).1 in
  rowCount (tagRow p st js:"a") = Prim (Number 2).
Proof.
  intros p st.
  apply (badges_exact p st (tagRow p st js:"a")).
  - change (tagRow p st js:"a" ∈ tagRow p st <$> sortedTags (items p)).
    apply list_elem_of_fmap. exists js:"a". split; [reflexivity|].
    apply (bool_decide_unpack _). vm_compute. exact I.
  - reflexivity.
Defined.

(** * Properties of sessions *)

(** Splits a goal on the tests a handler makes. *)
Ltac handler_cases :=
  repeat match goal with
  | |- context [mode ?s] => is_var s; destruct (mode s) eqn:?
  | |- context [if JsString.truthy ?x then _ else _] =>
      destruct (JsString.truthy x) eqn:?
  | |- context [if negb ?b then _ else _] => destruct b eqn:?; cbn [negb]
  | |- context [if bool_decide ?P then _ else _] =>
      destruct (bool_decide P) eqn:?
  | |- context [if ?b then _ else _] => is_var b; destruct b
  end; simpl.

Section Sessions.

Implicit Types (p : Props) (st : State) (g : Gesture) (e : Effect).
Implicit Types (gs : list (Props * Gesture)).

Lemma step_deletes p st g :
  length (filter is_delete (step p st g).2)
  = if is_confirmed_delete g then 1 else 0.
Proof. destruct g; run_handler; handler_cases; done. Qed.

Lemma step_local p st g :
  is_local g = true -> filter is_callback (step p st g).2 = [].
Proof. destruct g; try done; intros _; run_handler; handler_cases; done. Qed.

Lemma step_editing p st g :
  editingTag (step p st g).1 = editingTag st
  /\ editValue (step p st g).1 = editValue st.
Proof. destruct g; run_handler; handler_cases; done. Qed.

Lemma step_mode p st g : mode (step p st g).1 = default (mode st) (tab_of g).
Proof. destruct g; run_handler; handler_cases; done. Qed.

Lemma step_isDragOver p st g :
  isDragOver (step p st g).1 = default (isDragOver st) (drag_of g).
Proof. destruct g; run_handler; handler_cases; done. Qed.

End Sessions.

Lemma submitted_in_universe (p : Props) (st : State) :
  JsString.trim (newCategoryName st) <> [] ->
  JsString.trim (newCategoryName st)
    ∈ allCategories (items p) (customCategories (step p st ClickAdd).1).
Proof.
  intros Hne. rewrite add_category_runs by done. unfold includes.
  case_bool_decide as Hin; run_handler; [done|].
  apply elem_of_allCategories. right. left.
  apply elem_of_app. right. by apply list_elem_of_singleton.
Qed.

(** X10. Whatever the gesture, a call that names a group names a group of
    the active mode: in tag mode nothing is selected, dropped on or deleted
    as a category, and conversely. *)
Theorem callbacks_follow_mode
    (p : Props) (st : State) (g : Gesture) (e : Effect) (m : Mode) :
  e ∈ (step p st g).2 -> targets e = Some m -> m = mode st.
Proof.
  destruct g; run_handler; handler_cases; intros He;
    repeat (apply elem_of_cons in He as [->|He]); try (by apply elem_of_nil in He);
    simpl; congruence.
Qed.

Lemma callbacks_follow_mode_witness :
  let p := {| items := []; selectedTag := None; selectedCategory := None |} in
  let d := {| dataTransfer := {[ js:"text/plain" := js:"item-42" ]} |} in
  Category = mode initialState.
Proof.
  intros p d.
  apply (callbacks_follow_mode p initialState (DropOnRow d js:"Work")
           (OnDropOnCategory js:"item-42" js:"Work") Category).
  - apply (bool_decide_unpack _). vm_compute. exact I.
  - reflexivity.
Defined.

(** X11. Over a session, [onDeleteGroup] is called exactly as many times as
    the user confirmed the prompt of a delete control. *)
Theorem deletes_are_confirmed (st : State) (gs : list (Props * Gesture)) :
  length (filter is_delete (run st gs).2)
  = length (filter (fun pg => is_confirmed_delete pg.2 = true) gs).
Proof.
  revert st. induction gs as [|[p g] gs IH]; intros st; [done|].
  rewrite run_cons, filter_cons. cbn [fst snd].
  rewrite filter_app, length_app, step_deletes, IH.
  destruct (is_confirmed_delete g); case_decide; simpl; done.
Qed.

(** X12. A session only ever appends to the custom categories: the list it
    starts from is a prefix of the list it ends with, so over the same
    items the category universe never loses a name. *)
Theorem custom_categories_grow
    (st : State) (gs : list (Props * Gesture)) (its : list VaultItem) :
  customCategories st `prefix_of` customCategories (run st gs).1
  /\ allCategories its (customCategories st)
     ⊆ allCategories its (customCategories (run st gs).1).
Proof.
  rewrite run_additions. split; [by eexists|].
  intros x. rewrite !elem_of_allCategories, elem_of_app. tauto.
Qed.

(** X13. Submitting a name and then a name with the same trimmed form,
    over the same items, adds at most one category: the second submission
    leaves the custom categories as the first one left them. *)
Theorem resubmission_adds_nothing (p : Props) (st : State) (v1 v2 : jsstring) :
  JsString.trim v1 = JsString.trim v2 ->
  customCategories
    (run st [ (p, ChangeNewCategory v1); (p, ClickAdd);
              (p, ChangeNewCategory v2); (p, ClickAdd) ]).1
  = customCategories
      (run st [ (p, ChangeNewCategory v1); (p, ClickAdd) ]).1.
Proof.
  intros Htrim. rewrite !run_cons. cbn [run fst snd].
  set (st1 := (step p st (ChangeNewCategory v1)).1).
  set (st2 := (step p st1 ClickAdd).1).
  set (st3 := (step p st2 (ChangeNewCategory v2)).1).
  assert (newCategoryName st1 = v1) as Hv1 by done.
  assert (newCategoryName st3 = v2) as Hv3 by done.
  assert (customCategories st3 = customCategories st2) as Hcs3 by done.
  destruct (step_customCategories p st3 ClickAdd) as [->|(_ & Hne & Hnew)];
    [done|].
  rewrite Hv3, <- Htrim in Hne, Hnew. rewrite Hcs3 in Hnew.
  destruct Hnew. rewrite <- Hv1. apply submitted_in_universe. by rewrite Hv1.
Qed.

Lemma resubmission_adds_nothing_witness :
  let p := {| items := []; selectedTag := None; selectedCategory := None |} in
  customCategories
    (run initialState [ (p, ChangeNewCategory js:"Home "); (p, ClickAdd);
                        (p, ChangeNewCategory js:" Home"); (p, ClickAdd) ]).1
  = customCategories
      (run initialState [ (p, ChangeNewCategory js:"Home "); (p, ClickAdd) ]).1.
Proof.
  intros p. apply (resubmission_adds_nothing p initialState js:"Home " js:" Home").
  reflexivity.
Defined.

(** X14. No gesture starts the editing of a tag: over every session the
    editing cells keep the values they had. *)
Theorem editing_never_starts (st : State) (gs : list (Props * Gesture)) :
  editingTag (run st gs).1 = editingTag st
  /\ editValue (run st gs).1 = editValue st.
Proof.
  revert st. induction gs as [|[p g] gs IH]; intros st; [done|].
  rewrite run_cons. simpl.
  destruct (IH (step p st g).1) as [-> ->]. apply step_editing.
Qed.

(** X15. The mode after a session is the one of the last tab clicked, or
    the mode the session started in when no tab was clicked: nothing but
    the tabs changes the mode. *)
Theorem mode_follows_tabs (st : State) (gs : list (Props * Gesture)) :
  mode (run st gs).1 = foldl (fun m pg => default m (tab_of pg.2)) (mode st) gs.
Proof.
  revert st. induction gs as [|[p g] gs IH]; intros st; [done|].
  rewrite run_cons. simpl. by rewrite IH, step_mode.
Qed.

(** X16. The drop target after a session is the row of the last drag-over,
    or none after a drag-leave or a drop; no other gesture touches it. *)
Theorem drop_target_follows_drags (st : State) (gs : list (Props * Gesture)) :
  isDragOver (run st gs).1
  = foldl (fun t pg => default t (drag_of pg.2)) (isDragOver st) gs.
Proof.
  revert st. induction gs as [|[p g] gs IH]; intros st; [done|].
  rewrite run_cons. simpl. by rewrite IH, step_isDragOver.
Qed.

(** X17. Dragging over and off rows, typing in the new-category input and
    submitting it stay inside the panel: a session made of these gestures
    calls no callback of the parent. *)
Theorem local_gestures_are_silent (st : State) (gs : list (Props * Gesture)) :
  Forall (fun pg => is_local pg.2 = true) gs ->
  filter is_callback (run st gs).2 = [].
Proof.
  revert st. induction gs as [|[p g] gs IH]; intros st Hgs; [done|].
  apply Forall_cons in Hgs as [Hg Hgs].
  rewrite run_cons. simpl. by rewrite filter_app, step_local, IH.
Qed.

Lemma local_gestures_are_silent_witness :
  let p := {| items := []; selectedTag := None; selectedCategory := None |} in
  filter is_callback
    (run initialState [ (p, ChangeNewCategory js:"Home"); (p, ClickAdd);
                        (p, DragOverRow {| dataTransfer := ∅ |} js:"Home");
                        (p, DragLeaveRow js:"Home") ]).2 = [].
Proof.
  intros p. apply local_gestures_are_silent.
  repeat constructor.
Defined.





(** X21. The numbers in the count maps add up to the counts of the names
    that are not properties of [Object.prototype]: in the tag counts to
    the number of such tags carried by the items, in the category counts
    to the number of items filed under such a name.  When no tag and no
    category of the items is a property of [Object.prototype], these are
    the number of (item, tag) pairs and the number of items. *)
Theorem counts_sum_plain (its : list VaultItem) :
  total (tagCounts its)
  = sum_list_with
      (fun item =>
         length (filter (fun t => JsObject.inherits t = false) (tags item)))
      its
  /\ total (categoryCounts its)
     = length (filter (fun item => JsObject.inherits (filing item) = false) its)
  /\ (Forall (fun item =>
                Forall (fun t => JsObject.inherits t = false) (tags item)
                /\ JsObject.inherits (filing item) = false) its ->
      total (tagCounts its) = sum_list_with (fun item => length (tags item)) its
      /\ total (categoryCounts its) = length its).
Proof.
  assert (total (tagCounts its)
          = sum_list_with
              (fun item =>
                 length (filter (fun t => JsObject.inherits t = false)
                           (tags item))) its) as Htags.
  { unfold tagCounts. rewrite tagCounts_foldl_total by apply shaped_empty. done. }
  assert (total (categoryCounts its)
          = length (filter
                      (fun item => JsObject.inherits (filing item) = false) its))
    as Hcats.
  { unfold categoryCounts.
    rewrite categoryCounts_foldl_total by apply shaped_empty. done. }
  split_and!; [done | done |].
  intros Hall. rewrite Htags, Hcats. clear Htags Hcats.
  induction Hall as [|it its [Htags Hcat] Hall [IHt IHc]]; [done|].
  simpl. rewrite filter_cons, decide_True by done. simpl.
  rewrite IHt, IHc. split; [|done]. f_equal.
  clear -Htags. induction Htags as [|t ts Ht Hts IH]; [done|].
  rewrite filter_cons, decide_True by done. simpl. by f_equal.
Qed.

Lemma counts_sum_plain_witness :
  let its := [ {| tags := [js:"a"; js:"b"]; category := js:"Work" |};
               {| tags := [js:"a"]; category := [] |} ] in
  total (tagCounts its) = 3 /\ total (categoryCounts its) = 2.
Proof.
  intros its. apply (counts_sum_plain its).
  repeat constructor.
Defined.
